(** * 1password-config: field resolution of [getConfig]

    A shallow embedding of [src/index.ts].  The module maps a caller's
    configuration map onto the fields of one 1Password item and returns
    either bare values or value-plus-provenance records.

    Conventions of the embedding:
    - a TypeScript [string | undefined] is an [option string];
    - a plain JavaScript object used as a dictionary is the finite map of
      its own enumerable string-keyed properties ([gmap string V]);
    - an [async] function that may throw returns an [Outcome];
    - the two external capabilities, [String.prototype.toLowerCase] and
      [onePItem.get] of [@1password/op-js], are parameters of the model. *)

From Stdlib Require Import String Ascii List Bool.
From stdpp Require Import base option list strings gmap fin_maps fin_map_dom.

Local Open Scope string_scope.

(** ** Data model *)

(** A field of a fetched item: [{ id, label?, value? }]. *)
Module Field.
Record t : Type := mk { id : string; label : option string; value : option string }.
End Field.

(** The fetched [Item].  Only the two members that [getConfig] reads are
    kept: [id] (tested for truthiness) and the optional [fields] array. *)
Module Item.
Record t : Type := mk { id : option string; fields : option (list Field.t) }.
End Item.

(** [type ConfigFieldSpec = { key?: string; default?: string; description?: string }] *)
Module ConfigFieldSpec.
Record t : Type :=
  mk { key : option string; default : option string; description : option string }.
End ConfigFieldSpec.

(** [type ConfigValue = string | ConfigFieldSpec]; the constructor plays
    the role of the [typeof configValue === 'string'] test. *)
Inductive ConfigValue : Type :=
  | Described (text : string)
  | Structured (spec : ConfigFieldSpec.t).

(** [type ConfigResult = { value: string | undefined; matched: boolean; description?: string }] *)
Module ConfigResult.
Record t : Type :=
  mk { value : option string; matched : bool; description : option string }.
End ConfigResult.

(** [type GetConfigOptions = { detailedResult?: boolean }] *)
Module GetConfigOptions.
Record t : Type := mk { detailedResult : option bool }.
End GetConfigOptions.

(** The two result shapes of the overloaded [getConfig]. *)
Inductive ConfigOutput : Type :=
  | Simple (r : gmap string (option string))
  | Detailed (r : gmap string ConfigResult.t).

(** What a thrown value can be: the [Error] built by [getConfig] itself,
    or whatever the external retriever threw. *)
Inductive JsError : Type :=
  | Error (message : string)
  | Foreign (reason : string).

(** Completion of a call: a returned value or a thrown error (a rejected
    promise for the [async] function). *)
Inductive Outcome (R : Type) : Type :=
  | Return (r : R)
  | Throw (e : JsError).
Arguments Return {R} r.
Arguments Throw {R} e.

(** Completion of [await onePItem.get(idOrName)]: the retriever throws,
    or yields a value that is either falsy ([None]) or an object. *)
Inductive Fetched : Type :=
  | Throws (e : JsError)
  | Resolves (v : option Item.t).

(** ** JavaScript primitives used by the source *)

(** Truthiness of a [string | undefined]: [undefined] and the empty
    string are falsy. *)
Definition truthy (s : option string) : bool :=
  match s with
  | Some (String _ _) => true
  | _ => false
  end.

(** [a || b] on a [string | undefined] left operand. *)
Definition js_or (a : option string) (b : string) : string :=
  match a with
  | Some (String c rest) => String c rest
  | _ => b
  end.

(** The property name that ordinary objects inherit as an accessor from
    [Object.prototype]. *)
Definition proto_key : string := "__proto__".

(** [obj[k] = v] on an object created by [{}].  For every name but
    [__proto__] the assignment creates or overwrites an own property.
    For [__proto__] it runs the inherited setter, which changes (or
    ignores) the prototype and creates no own property. *)
Definition js_assign {V : Type} (k : string) (v : V) (obj : gmap string V) : gmap string V :=
  if decide (k = proto_key) then obj else <[k := v]> obj.

(** [entries.forEach(([k, v]) => { obj[k] = f(k, v); })] on a fresh
    [obj = {}], for the entries in the order of the visit. *)
Definition forEach_assign {A V : Type} (f : string -> A -> V)
    (entries : list (string * A)) : gmap string V :=
  fold_left (fun obj entry => js_assign entry.1 (f entry.1 entry.2) obj) entries ∅.

(** The double quote character of the template literal. *)
Definition dquote : string := String "034"%char EmptyString.

(** [`Item with name or UUID "${idOrName}" not found.`] *)
Definition not_found_message (idOrName : string) : string :=
  "Item with name or UUID " ++ dquote ++ idOrName ++ dquote ++ " not found.".

(** ** Sample data

    A lower-casing for ASCII text and a small store, used to run the
    definitions on concrete inputs. *)

Definition ascii_lower (c : ascii) : ascii :=
  let n := nat_of_ascii c in
  if (65 <=? n)%nat && (n <=? 90)%nat then ascii_of_nat (n + 32) else c.

Fixpoint ascii_toLowerCase (s : string) : string :=
  match s with
  | EmptyString => EmptyString
  | String c rest => String (ascii_lower c) (ascii_toLowerCase rest)
  end.

(** The item of the README's object storage example. *)
Definition oss_item : Item.t :=
  Item.mk (Some "ofcxsyjz5l2ub6zqvwxkqpjqka")
    (Some [ Field.mk "region-id" (Some "region") (Some "oss-cn-shanghai");
            Field.mk "username" None (Some "AKID123") ]).

(** An item whose first field named [token] is an empty slot and whose
    second field carries the label [Token]. *)
Definition shadowed_item : Item.t :=
  Item.mk (Some "s1")
    (Some [ Field.mk "token" None None;
            Field.mk "f2" (Some "Token") (Some "t0k3n") ]).

(** An item without a [fields] member, and a fetched object without [id]. *)
Definition bare_item : Item.t := Item.mk (Some "b1") None.
Definition anonymous_item : Item.t := Item.mk None (Some []).

(** A store with four entries; every other name yields [undefined]. *)
Definition sample_store (idOrName : string) : Fetched :=
  if String.eqb idOrName "oss" then Resolves (Some oss_item)
  else if String.eqb idOrName "shadowed" then Resolves (Some shadowed_item)
  else if String.eqb idOrName "bare" then Resolves (Some bare_item)
  else if String.eqb idOrName "anonymous" then Resolves (Some anonymous_item)
  else Resolves None.

(** The field map of the README example. *)
Definition oss_keyOptions : gmap string ConfigValue :=
  <["region" := Described "OSS region"]>
  (<["access_key_id" := Structured (ConfigFieldSpec.mk (Some "username") None None)]>
  (<["bucket" := Structured (ConfigFieldSpec.mk None (Some "dev-bucket") None)]> ∅)).

Definition want_detailed : option GetConfigOptions.t :=
  Some (GetConfigOptions.mk (Some true)).

(** The same entry under another description. *)
Definition redescribe (text : string) (configValue : ConfigValue) : ConfigValue :=
  match configValue with
  | Described _ => Described text
  | Structured spec =>
      Structured (ConfigFieldSpec.mk (ConfigFieldSpec.key spec)
                    (ConfigFieldSpec.default spec) (Some text))
  end.

(** A structured entry whose [key] is present and empty. *)
Definition empty_key_spec : ConfigFieldSpec.t :=
  ConfigFieldSpec.mk (Some EmptyString) None None.

(** A field map with an own property named [__proto__], as
    [JSON.parse] or a computed property name produces. *)
Definition proto_keyOptions : gmap string ConfigValue :=
  {[ "__proto__" := Described "prototype" ]}.

(** A fetched object whose [id] is the empty string, and an item whose
    [bucket] field holds the empty string. *)
Definition blank_id_item : Item.t := Item.mk (Some EmptyString) (Some []).
Definition blank_value_item : Item.t :=
  Item.mk (Some "v1") (Some [ Field.mk "bucket" None (Some EmptyString) ]).

(** Stores that answer every name alike: with one item, or by throwing. *)
Definition constant_store (item : Item.t) (idOrName : string) : Fetched :=
  Resolves (Some item).
Definition failing_store (e : JsError) (idOrName : string) : Fetched := Throws e.


(** ** The program *)

Section Program.

Set Default Proof Using "Type".

(** [String.prototype.toLowerCase]. *)
Variable toLowerCase : string -> string.

(** [onePItem.get] followed by [await]. *)
Variable onePItem_get : string -> Fetched.

(** The predicate handed to [Array.prototype.find]:
    [f.id === fieldId || f.label?.toLowerCase() === fieldId.toLowerCase()]. *)
Definition field_matches (fieldId : string) (f : Field.t) : bool :=
  String.eqb (Field.id f) fieldId
  || match Field.label f with
     | Some l => String.eqb (toLowerCase l) (toLowerCase fieldId)
     | None => false
     end.

(** [getFieldValue]: [item.fields?.find(...)] then [field?.value]. *)
Definition getFieldValue (item : Item.t) (fieldId : string) : option string :=
  match Item.fields item with
  | None => None
  | Some fs =>
      match find (field_matches fieldId) fs with
      | Some field => Field.value field
      | None => None
      end
  end.

(** The three locals set by the [if (typeof configValue === 'string')]
    statement of the [forEach] callback. *)
Definition fieldKey (configKey : string) (configValue : ConfigValue) : string :=
  match configValue with
  | Described _ => configKey
  | Structured spec => js_or (ConfigFieldSpec.key spec) configKey
  end.

Definition defaultValue (configValue : ConfigValue) : option string :=
  match configValue with
  | Described _ => None
  | Structured spec => ConfigFieldSpec.default spec
  end.

Definition description (configValue : ConfigValue) : option string :=
  match configValue with
  | Described text => Some text
  | Structured spec => ConfigFieldSpec.description spec
  end.

(** The object literal stored under [configKey] by the callback. *)
Definition resolveField (item : Item.t) (configKey : string) (configValue : ConfigValue)
  : ConfigResult.t :=
  let foundValue := getFieldValue item (fieldKey configKey configValue) in
  let matched := bool_decide (foundValue <> None) in
  let finalValue := if matched then foundValue else defaultValue configValue in
  ConfigResult.mk finalValue matched (description configValue).

(** [detailedResult_tmp] after
    [Object.entries(keyOptions).forEach(...)].  The entries of an
    object have pairwise distinct names, so the order of the visit does
    not show in the result. *)
Definition detailedResult_tmp (item : Item.t) (keyOptions : gmap string ConfigValue)
  : gmap string ConfigResult.t :=
  map_fold (fun configKey configValue acc =>
              js_assign configKey (resolveField item configKey configValue) acc)
    ∅ keyOptions.

(** [simpleResult] after [Object.entries(detailedResult_tmp).forEach(...)]. *)
Definition simpleResult (detailed : gmap string ConfigResult.t)
  : gmap string (option string) :=
  map_fold (fun key result acc => js_assign key (ConfigResult.value result) acc)
    ∅ detailed.

(** [const { detailedResult = false } = options], with [options]
    itself defaulting to [{}]. *)
Definition detailedResult (options : option GetConfigOptions.t) : bool :=
  match options with
  | Some o => default false (GetConfigOptions.detailedResult o)
  | None => false
  end.

(** [getConfig]. *)
Definition getConfig (idOrName : string) (keyOptions : gmap string ConfigValue)
    (options : option GetConfigOptions.t) : Outcome ConfigOutput :=
  match onePItem_get idOrName with
  | Throws e => Throw e
  | Resolves onePConfigResult =>
      match onePConfigResult with
      | None => Throw (Error (not_found_message idOrName))
      | Some item =>
          if negb (truthy (Item.id item))
          then Throw (Error (not_found_message idOrName))
          else
            let tmp := detailedResult_tmp item keyOptions in
            if detailedResult options
            then Return (Detailed tmp)
            else Return (Simple (simpleResult tmp))
      end
  end.

(** ** The specification's vocabulary

    Definitions that follow the words of the specification; the theorems
    below compare them with the program. *)

(** Field matching (specification, 4.2): the identifier equals the lookup
    key exactly, or the label, lower-cased, equals the lookup key
    lower-cased. *)
Definition spec_matches (k : string) (f : Field.t) : Prop :=
  Field.id f = k \/ exists l, Field.label f = Some l /\ toLowerCase l = toLowerCase k.

(** [f] is the first field of [fs], in list order, that matches [k]. *)
Definition first_match (k : string) (fs : list Field.t) (f : Field.t) : Prop :=
  exists pre post,
    fs = (pre ++ f :: post)%list
    /\ (forall g, g ∈ pre -> ~ spec_matches k g)
    /\ spec_matches k f.

(** The lookup key as the specification words it (4.3, step 1):
    [spec.key] if present, else the declared key. *)
Definition spec_lookupKey (declaredKey : string) (spec : ConfigFieldSpec.t) : string :=
  match ConfigFieldSpec.key spec with
  | Some k => k
  | None => declaredKey
  end.

(** Output shaping (specification, 4.4): the simple shape keeps the
    [value] of every entry of the detailed map. *)
Definition project_values (detailed : gmap string ConfigResult.t)
  : gmap string (option string) :=
  ConfigResult.value <$> detailed.

(** The store-side alias a specification entry asks for, if any. *)
Definition key_alias (configValue : ConfigValue) : option string :=
  match configValue with
  | Described _ => None
  | Structured spec => ConfigFieldSpec.key spec
  end.

(** Two configuration maps with the same keys, the same aliases and the
    same defaults: they may differ in descriptions only. *)
Definition same_up_to_descriptions (m1 m2 : gmap string ConfigValue) : Prop :=
  dom m1 = dom m2
  /\ forall k v1 v2, m1 !! k = Some v1 -> m2 !! k = Some v2 ->
       key_alias v1 = key_alias v2 /\ defaultValue v1 = defaultValue v2.

(** What a caller sees of a result once descriptions are put aside. *)
Definition resolution_of (r : ConfigResult.t) : option string * bool :=
  (ConfigResult.value r, ConfigResult.matched r).

Definition without_descriptions (o : Outcome ConfigOutput)
  : Outcome (gmap string (option string) + gmap string (option string * bool)) :=
  match o with
  | Throw e => Throw e
  | Return (Simple r) => Return (inl r)
  | Return (Detailed r) => Return (inr (resolution_of <$> r))
  end.

(** [result[k]] on what a call returned, for each of the two shapes. *)
Definition detailed_entry (o : Outcome ConfigOutput) (k : string) : option ConfigResult.t :=
  match o with
  | Return (Detailed r) => r !! k
  | _ => None
  end.

Definition simple_entry (o : Outcome ConfigOutput) (k : string) : option (option string) :=
  match o with
  | Return (Simple r) => r !! k
  | _ => None
  end.

(** [Object.keys(result)]. *)
Definition result_keys (o : ConfigOutput) : gset string :=
  match o with
  | Simple r => dom r
  | Detailed r => dom r
  end.

(** ** Reading the two loops as maps *)

(** A [forEach] that assigns [f k v] under every entry's own name
    leaves exactly the entries whose name is not [__proto__]. *)
Lemma js_assign_fold_lookup {A V : Type} (f : string -> A -> V)
    (m : gmap string A) (k : string) :
  map_fold (fun k v acc => js_assign k (f k v) acc) ∅ m !! k
  = if decide (k = proto_key) then None else f k <$> m !! k.
Proof.
  apply (map_fold_weak_ind
           (fun r m => r !! k = if decide (k = proto_key) then None else f k <$> m !! k)).
  - rewrite !lookup_empty. by case_decide.
  - intros i x m' r Hi IH. unfold js_assign.
    destruct (decide (i = proto_key)) as [->|Hne].
    + rewrite IH. case_decide; [done|]. by rewrite lookup_insert_ne.
    + destruct (decide (i = k)) as [->|Hik].
      * rewrite !lookup_insert_eq. by rewrite decide_False.
      * rewrite !lookup_insert_ne by done. exact IH.
Qed.

(** The same loop over a list of entries, started from any object. *)
Lemma fold_left_js_assign_lookup {A V : Type} (f : string -> A -> V)
    (entries : list (string * A)) (obj : gmap string V) (k : string) :
  NoDup entries.*1 ->
  fold_left (fun obj entry => js_assign entry.1 (f entry.1 entry.2) obj) entries obj !! k
  = if decide (k = proto_key) then obj !! k
    else match (list_to_map entries : gmap string A) !! k with
         | Some v => Some (f k v)
         | None => obj !! k
         end.
Proof.
  revert obj. induction entries as [|[k0 v0] entries IH]; intros obj Hnodup.
  - simpl. rewrite lookup_empty. by destruct (decide (k = proto_key)).
  - apply NoDup_cons in Hnodup as [Hfresh Hnodup]. simpl in Hfresh.
    change (fold_left (fun obj entry => js_assign entry.1 (f entry.1 entry.2) obj)
              entries (js_assign k0 (f k0 v0) obj) !! k
            = if decide (k = proto_key) then obj !! k
              else match <[k0 := v0]> (list_to_map entries : gmap string A) !! k with
                   | Some v => Some (f k v)
                   | None => obj !! k
                   end).
    rewrite IH by done. unfold js_assign.
    destruct (decide (k = proto_key)) as [->|Hk].
    + destruct (decide (k0 = proto_key)); [done|]. by rewrite lookup_insert_ne.
    + destruct (decide (k0 = k)) as [->|Hk0].
      * rewrite lookup_insert_eq.
        apply not_elem_of_list_to_map_1 in Hfresh. rewrite Hfresh.
        rewrite decide_False by done. by rewrite lookup_insert_eq.
      * rewrite lookup_insert_ne by done.
        destruct (list_to_map entries !! k); [done|].
        destruct (decide (k0 = proto_key)); [done|]. by rewrite lookup_insert_ne.
Qed.

(** The names of an object's entries are pairwise distinct, so the
    result of the loop is the same for every order of enumeration. *)
Lemma forEach_assign_any_order {A V : Type} (f : string -> A -> V)
    (m : gmap string A) (entries : list (string * A)) :
  NoDup entries.*1 -> list_to_map entries = m ->
  forEach_assign f entries = map_fold (fun k v acc => js_assign k (f k v) acc) ∅ m.
Proof.
  intros Hnodup <-. apply map_eq. intros k. unfold forEach_assign.
  rewrite fold_left_js_assign_lookup, js_assign_fold_lookup, lookup_empty by done.
  destruct (decide (k = proto_key)); [done|].
  by destruct (list_to_map entries !! k).
Qed.

(** ** Field matching *)

(** The predicate of [find] decides the specification's matching. *)
Lemma field_matches_spec (k : string) (f : Field.t) :
  field_matches k f = true <-> spec_matches k f.
Proof.
  unfold field_matches, spec_matches.
  rewrite orb_true_iff, String.eqb_eq. split.
  - intros [Hid|Hl]; [by left|right].
    destruct (Field.label f) as [l|]; [|done].
    exists l. split; [done|]. by apply String.eqb_eq.
  - intros [Hid|(l & Hl & Heq)]; [by left|right].
    rewrite Hl. by apply String.eqb_eq.
Qed.

Lemma field_matches_false (k : string) (f : Field.t) :
  field_matches k f = false <-> ~ spec_matches k f.
Proof.
  rewrite <- field_matches_spec. destruct (field_matches k f).
  - split; [done|]. intros Hn. by destruct Hn.
  - split; [|done]. intros _ Hn. discriminate Hn.
Qed.

(** [find] returns the first element that satisfies the predicate... *)
Lemma find_first {X : Type} (p : X -> bool) (pre post : list X) (x : X) :
  (forall y, y ∈ pre -> p y = false) -> p x = true ->
  find p (pre ++ x :: post)%list = Some x.
Proof.
  induction pre as [|y pre IH]; intros Hpre Hx; simpl.
  - by rewrite Hx.
  - rewrite (Hpre y) by apply list_elem_of_here.
    apply IH; [|done]. intros z Hz. apply Hpre. by apply list_elem_of_further.
Qed.

(** ... and whatever it returns is such a first element. *)
Lemma find_splits {X : Type} (p : X -> bool) (l : list X) (x : X) :
  find p l = Some x ->
  exists pre post, l = (pre ++ x :: post)%list /\ (forall y, y ∈ pre -> p y = false) /\ p x = true.
Proof.
  induction l as [|y l IH]; simpl; [done|].
  destruct (p y) eqn:Hy.
  - intros [= ->]. exists [], l. split_and!; [done| |done].
    intros z Hz. by apply not_elem_of_nil in Hz.
  - intros Hfind. destruct (IH Hfind) as (pre & post & -> & Hpre & Hx).
    exists (y :: pre), post. split_and!; [done| |done].
    intros z Hz. apply elem_of_cons in Hz as [->|Hz]; [done|by apply Hpre].
Qed.

Lemma find_none_iff {X : Type} (p : X -> bool) (l : list X) :
  find p l = None <-> forall y, y ∈ l -> p y = false.
Proof.
  induction l as [|y l IH]; simpl.
  - split; [|done]. intros _ z Hz. by apply not_elem_of_nil in Hz.
  - destruct (p y) eqn:Hy.
    + split; [done|]. intros H. specialize (H y (list_elem_of_here _ _)). congruence.
    + rewrite IH. split.
      * intros H z Hz. apply elem_of_cons in Hz as [->|Hz]; [done|by apply H].
      * intros H z Hz. apply H. by apply list_elem_of_further.
Qed.

Lemma first_match_find (k : string) (fs : list Field.t) (f : Field.t) :
  first_match k fs f <-> find (field_matches k) fs = Some f.
Proof.
  split.
  - intros (pre & post & -> & Hpre & Hf). apply find_first.
    + intros g Hg. apply field_matches_false. by apply Hpre.
    + by apply field_matches_spec.
  - intros Hfind. apply find_splits in Hfind as (pre & post & -> & Hpre & Hf).
    exists pre, post. split_and!; [done| |by apply field_matches_spec].
    intros g Hg. apply field_matches_false. by apply Hpre.
Qed.

(** The value found is the value of the first match. *)
Lemma getFieldValue_of_first_match (item : Item.t) (k : string)
    (fs : list Field.t) (f : Field.t) :
  Item.fields item = Some fs -> first_match k fs f ->
  getFieldValue item k = Field.value f.
Proof.
  intros Hfs Hfirst. apply first_match_find in Hfirst.
  unfold getFieldValue. by rewrite Hfs, Hfirst.
Qed.

(** Nothing is found when no matching field has a defined value. *)
Lemma getFieldValue_unmatched (item : Item.t) (k : string) :
  (forall fs f, Item.fields item = Some fs -> f ∈ fs -> spec_matches k f ->
                Field.value f = None) ->
  getFieldValue item k = None.
Proof.
  intros Hnone. unfold getFieldValue.
  destruct (Item.fields item) as [fs|]; [|done].
  destruct (find (field_matches k) fs) as [f|] eqn:Hfind; [|done].
  apply find_splits in Hfind as (pre & post & -> & _ & Hf).
  apply (Hnone _ f eq_refl); [|by apply field_matches_spec].
  apply elem_of_app. right. apply list_elem_of_here.
Qed.

Lemma resolveField_matched (item : Item.t) (configKey : string) (configValue : ConfigValue) :
  ConfigResult.matched (resolveField item configKey configValue) = true
  <-> getFieldValue item (fieldKey configKey configValue) <> None.
Proof. unfold resolveField. simpl. apply bool_decide_eq_true. Qed.

(** C1. Field matching scans the item's field list in order and selects
    the first field whose identifier equals the lookup key exactly or
    whose label, lower-cased, equals the lookup key lower-cased.  The
    value found is that first field's value, and a declared field counts
    as matched exactly when such a first field exists and its value is
    defined: a first match with an undefined value gives
    [matched = false] whatever the later fields hold. *)
Theorem getFieldValue_first_match (item : Item.t) (fieldId : string) :
  (forall f, field_matches fieldId f = true <-> spec_matches fieldId f)
  /\ (forall fs f, Item.fields item = Some fs -> first_match fieldId fs f ->
        getFieldValue item fieldId = Field.value f)
  /\ (forall configKey configValue, fieldKey configKey configValue = fieldId ->
        (ConfigResult.matched (resolveField item configKey configValue) = true
         <-> exists fs f, Item.fields item = Some fs /\ first_match fieldId fs f
                          /\ Field.value f <> None))
  /\ (forall configKey configValue fs f, fieldKey configKey configValue = fieldId ->
        Item.fields item = Some fs -> first_match fieldId fs f -> Field.value f = None ->
        ConfigResult.matched (resolveField item configKey configValue) = false).
Proof.
  split_and!.
  - intros f. apply field_matches_spec.
  - apply getFieldValue_of_first_match.
  - intros configKey configValue <-. rewrite resolveField_matched. split.
    + intros Hv. unfold getFieldValue in Hv.
      destruct (Item.fields item) as [fs|]; [|done].
      destruct (find _ fs) as [f|] eqn:Hfind; [|done].
      exists fs, f. split_and!; [done|by apply first_match_find|done].
    + intros (fs & f & Hfs & Hfirst & Hv).
      by rewrite (getFieldValue_of_first_match _ _ _ _ Hfs Hfirst).
  - intros configKey configValue fs f <- Hfs Hfirst Hv.
    apply not_true_is_false. rewrite resolveField_matched.
    rewrite (getFieldValue_of_first_match _ _ _ _ Hfs Hfirst), Hv.
    intros Hne. by apply Hne.
Qed.

(** ** Resolution of a configuration map *)

(** *** The two loops *)

Lemma detailedResult_tmp_lookup (item : Item.t) (keyOptions : gmap string ConfigValue)
    (k : string) :
  detailedResult_tmp item keyOptions !! k
  = if decide (k = proto_key) then None else resolveField item k <$> keyOptions !! k.
Proof. apply (js_assign_fold_lookup (resolveField item)). Qed.

(** [Object.entries] may enumerate the declared keys in any order. *)
Lemma detailedResult_tmp_any_order (item : Item.t) (keyOptions : gmap string ConfigValue)
    (entries : list (string * ConfigValue)) :
  NoDup entries.*1 -> list_to_map entries = keyOptions ->
  forEach_assign (resolveField item) entries = detailedResult_tmp item keyOptions.
Proof. apply forEach_assign_any_order. Qed.

Lemma detailedResult_tmp_entry (item : Item.t) (keyOptions : gmap string ConfigValue)
    (k : string) (v : ConfigValue) :
  keyOptions !! k = Some v -> k <> proto_key ->
  detailedResult_tmp item keyOptions !! k = Some (resolveField item k v).
Proof.
  intros Hk Hne. rewrite detailedResult_tmp_lookup, decide_False by done. by rewrite Hk.
Qed.

Lemma simpleResult_lookup (detailed : gmap string ConfigResult.t) (k : string) :
  simpleResult detailed !! k
  = if decide (k = proto_key) then None else ConfigResult.value <$> detailed !! k.
Proof. apply (js_assign_fold_lookup (fun _ r => ConfigResult.value r)). Qed.

(** The second loop is the projection of the first one's result. *)
Lemma simpleResult_project (item : Item.t) (keyOptions : gmap string ConfigValue) :
  simpleResult (detailedResult_tmp item keyOptions)
  = project_values (detailedResult_tmp item keyOptions).
Proof.
  apply map_eq. intros k. unfold project_values.
  rewrite simpleResult_lookup, lookup_fmap.
  case_decide as Hk; [|done]. subst k.
  by rewrite detailedResult_tmp_lookup, decide_True.
Qed.

Lemma detailedResult_tmp_dom (item : Item.t) (keyOptions : gmap string ConfigValue) :
  dom (detailedResult_tmp item keyOptions) = dom keyOptions ∖ {[proto_key]}.
Proof.
  apply set_eq. intros k.
  rewrite elem_of_difference, !elem_of_dom, detailedResult_tmp_lookup, elem_of_singleton.
  destruct (decide (k = proto_key)) as [Hk|Hk].
  - split; [by intros [? ?]|by intros [_ ?]].
  - rewrite fmap_is_Some. split; [by intros ?|by intros [? _]].
Qed.

(** *** The call *)

(** A fetch that yields an object with a truthy [id] is followed by
    the two loops and never by a throw. *)
Lemma getConfig_fetched (idOrName : string) (keyOptions : gmap string ConfigValue)
    (options : option GetConfigOptions.t) (item : Item.t) :
  onePItem_get idOrName = Resolves (Some item) -> truthy (Item.id item) = true ->
  getConfig idOrName keyOptions options
  = Return (if detailedResult options
            then Detailed (detailedResult_tmp item keyOptions)
            else Simple (project_values (detailedResult_tmp item keyOptions))).
Proof.
  intros Hget Hid. unfold getConfig. rewrite Hget, Hid. simpl.
  destruct (detailedResult options); [done|]. by rewrite simpleResult_project.
Qed.

(** An error thrown by the retriever is passed on unchanged. *)
Lemma getConfig_retriever_throws (idOrName : string) (keyOptions : gmap string ConfigValue)
    (options : option GetConfigOptions.t) (e : JsError) :
  onePItem_get idOrName = Throws e -> getConfig idOrName keyOptions options = Throw e.
Proof. intros Hget. unfold getConfig. by rewrite Hget. Qed.

Lemma getConfig_detailed_entry (idOrName : string) (keyOptions : gmap string ConfigValue)
    (options : option GetConfigOptions.t) (item : Item.t) (k : string) (v : ConfigValue) :
  onePItem_get idOrName = Resolves (Some item) -> truthy (Item.id item) = true ->
  detailedResult options = true -> keyOptions !! k = Some v -> k <> proto_key ->
  detailed_entry (getConfig idOrName keyOptions options) k = Some (resolveField item k v).
Proof.
  intros Hget Hid Hopt Hk Hne. rewrite (getConfig_fetched _ _ _ _ Hget Hid), Hopt. simpl.
  by apply detailedResult_tmp_entry.
Qed.

Lemma getConfig_simple_entry (idOrName : string) (keyOptions : gmap string ConfigValue)
    (options : option GetConfigOptions.t) (item : Item.t) (k : string) (v : ConfigValue) :
  onePItem_get idOrName = Resolves (Some item) -> truthy (Item.id item) = true ->
  detailedResult options = false -> keyOptions !! k = Some v -> k <> proto_key ->
  simple_entry (getConfig idOrName keyOptions options) k
  = Some (ConfigResult.value (resolveField item k v)).
Proof.
  intros Hget Hid Hopt Hk Hne. rewrite (getConfig_fetched _ _ _ _ Hget Hid), Hopt. simpl.
  unfold project_values. rewrite lookup_fmap.
  by rewrite (detailedResult_tmp_entry _ _ _ _ Hk Hne).
Qed.

(** *** Per-field resolution *)

Lemma resolveField_unmatched (item : Item.t) (configKey : string) (configValue : ConfigValue) :
  getFieldValue item (fieldKey configKey configValue) = None ->
  resolveField item configKey configValue
  = ConfigResult.mk (defaultValue configValue) false (description configValue).
Proof. intros Hnone. unfold resolveField. by rewrite Hnone. Qed.

Lemma resolveField_found (item : Item.t) (configKey : string) (configValue : ConfigValue)
    (v : string) :
  getFieldValue item (fieldKey configKey configValue) = Some v ->
  resolveField item configKey configValue
  = ConfigResult.mk (Some v) true (description configValue).
Proof. intros Hsome. unfold resolveField. by rewrite Hsome. Qed.

(** C2. A declared field whose lookup key matches no store field with
    a defined value resolves to its default when the entry provides one
    and to an absent value otherwise, with [matched = false] in both
    cases.  The call returns, it does not throw; and whenever [matched]
    is true the value is the one found in the item, never the default. *)
Theorem unmatched_field_takes_default (idOrName : string)
    (keyOptions : gmap string ConfigValue) (options : option GetConfigOptions.t)
    (item : Item.t) (configKey : string) (configValue : ConfigValue) :
  onePItem_get idOrName = Resolves (Some item) -> truthy (Item.id item) = true ->
  keyOptions !! configKey = Some configValue ->
  let lookupKey := fieldKey configKey configValue in
  let resolved := resolveField item configKey configValue in
  (exists out, getConfig idOrName keyOptions options = Return out)
  /\ (ConfigResult.matched resolved = true ->
      getFieldValue item lookupKey <> None
      /\ ConfigResult.value resolved = getFieldValue item lookupKey)
  /\ ((forall fs f, Item.fields item = Some fs -> f ∈ fs ->
                    spec_matches lookupKey f -> Field.value f = None) ->
      ConfigResult.value resolved = defaultValue configValue
      /\ ConfigResult.matched resolved = false
      /\ (configKey <> proto_key ->
          if detailedResult options
          then detailed_entry (getConfig idOrName keyOptions options) configKey
               = Some (ConfigResult.mk (defaultValue configValue) false
                         (description configValue))
          else simple_entry (getConfig idOrName keyOptions options) configKey
               = Some (defaultValue configValue))).
Proof.
  intros Hget Hid Hk lookupKey resolved. split_and!.
  - rewrite (getConfig_fetched _ _ _ _ Hget Hid). eauto.
  - unfold resolved, resolveField. fold lookupKey. simpl.
    destruct (getFieldValue item lookupKey) as [v|]; [|discriminate].
    intros _. split; [discriminate|reflexivity].
  - intros Hnone.
    assert (resolved = ConfigResult.mk (defaultValue configValue) false
                         (description configValue)) as Hres.
    { apply resolveField_unmatched. by apply getFieldValue_unmatched. }
    split_and!.
    + by rewrite Hres.
    + by rewrite Hres.
    + intros Hne. destruct (detailedResult options) eqn:Hopt.
      * rewrite (getConfig_detailed_entry _ _ _ _ _ _ Hget Hid Hopt Hk Hne).
        by rewrite <- Hres.
      * rewrite (getConfig_simple_entry _ _ _ _ _ _ Hget Hid Hopt Hk Hne).
        fold resolved. by rewrite Hres.
Qed.

(** C3 (amended). For a structured entry the lookup key is [spec.key]
    when that is present and not the empty string, and the declared key
    otherwise; the value and the matched flag of the entry are those of
    the field found under that lookup key. *)
Theorem structured_lookup_key (item : Item.t) (configKey : string)
    (spec : ConfigFieldSpec.t) :
  let lookupKey :=
    match ConfigFieldSpec.key spec with
    | Some k => if decide (k = EmptyString) then configKey else k
    | None => configKey
    end in
  let found := getFieldValue item lookupKey in
  fieldKey configKey (Structured spec) = lookupKey
  /\ (ConfigFieldSpec.key spec <> Some EmptyString ->
      lookupKey = spec_lookupKey configKey spec)
  /\ resolveField item configKey (Structured spec)
     = ConfigResult.mk (if bool_decide (found <> None) then found
                        else ConfigFieldSpec.default spec)
         (bool_decide (found <> None)) (ConfigFieldSpec.description spec)
  /\ (forall idOrName keyOptions options,
        onePItem_get idOrName = Resolves (Some item) -> truthy (Item.id item) = true ->
        detailedResult options = true ->
        keyOptions !! configKey = Some (Structured spec) -> configKey <> proto_key ->
        detailed_entry (getConfig idOrName keyOptions options) configKey
        = Some (ConfigResult.mk (if bool_decide (found <> None) then found
                                 else ConfigFieldSpec.default spec)
                  (bool_decide (found <> None)) (ConfigFieldSpec.description spec))).
Proof.
  intros lookupKey found.
  assert (fieldKey configKey (Structured spec) = lookupKey) as Hkey.
  { unfold lookupKey. simpl.
    destruct (ConfigFieldSpec.key spec) as [[|c rest]|]; simpl; try done. }
  assert (resolveField item configKey (Structured spec)
          = ConfigResult.mk (if bool_decide (found <> None) then found
                             else ConfigFieldSpec.default spec)
              (bool_decide (found <> None)) (ConfigFieldSpec.description spec)) as Hres.
  { unfold resolveField, found. by rewrite Hkey. }
  split_and!; [done| |done|].
  - unfold lookupKey, spec_lookupKey.
    destruct (ConfigFieldSpec.key spec) as [[|c rest]|]; simpl; intros Hkey';
      [by destruct Hkey'|done|done].
  - intros idOrName keyOptions options Hget Hid Hopt Hk Hne.
    rewrite (getConfig_detailed_entry _ _ _ _ _ _ Hget Hid Hopt Hk Hne).
    by rewrite Hres.
Qed.

(** C4. Once the item is fetched, the detailed map is built first for
    either shape; the detailed shape returns it as it is, and the simple
    shape returns its projection to the [value] components, which is
    what the second loop of the source computes. *)
Theorem simple_is_projection_of_detailed (idOrName : string)
    (keyOptions : gmap string ConfigValue) (item : Item.t)
    (asDetailed asSimple : option GetConfigOptions.t) :
  onePItem_get idOrName = Resolves (Some item) -> truthy (Item.id item) = true ->
  detailedResult asDetailed = true -> detailedResult asSimple = false ->
  exists detailed,
    detailed = detailedResult_tmp item keyOptions
    /\ getConfig idOrName keyOptions asDetailed = Return (Detailed detailed)
    /\ getConfig idOrName keyOptions asSimple = Return (Simple (project_values detailed))
    /\ simpleResult detailed = project_values detailed.
Proof.
  intros Hget Hid Hd Hs. exists (detailedResult_tmp item keyOptions).
  rewrite !(getConfig_fetched _ _ _ _ Hget Hid), Hd, Hs.
  split_and!; try done. apply simpleResult_project.
Qed.

(** C5. When the retriever yields no item for the identifier, the call
    throws an [Error] whose message carries the identifier, whatever the
    configuration map and the options are; nothing is returned. *)
Theorem missing_item_fails (idOrName : string) (keyOptions : gmap string ConfigValue)
    (options : option GetConfigOptions.t) :
  onePItem_get idOrName = Resolves None ->
  getConfig idOrName keyOptions options
  = Throw (Error ("Item with name or UUID " ++ dquote ++ idOrName ++ dquote ++ " not found."))
  /\ (forall out, getConfig idOrName keyOptions options <> Return out).
Proof.
  intros Hget. unfold getConfig. rewrite Hget. split; [done|]. by intros out.
Qed.

(** The keys of a result are the declared keys other than [__proto__]. *)
Lemma getConfig_result_keys (idOrName : string) (keyOptions : gmap string ConfigValue)
    (options : option GetConfigOptions.t) (item : Item.t) :
  onePItem_get idOrName = Resolves (Some item) -> truthy (Item.id item) = true ->
  exists out, getConfig idOrName keyOptions options = Return out
              /\ result_keys out = dom keyOptions ∖ {[proto_key]}.
Proof.
  intros Hget Hid. rewrite (getConfig_fetched _ _ _ _ Hget Hid).
  eexists. split; [done|].
  destruct (detailedResult options); simpl.
  - apply detailedResult_tmp_dom.
  - unfold project_values. rewrite dom_fmap_L. apply detailedResult_tmp_dom.
Qed.

(** With no declared key named [__proto__] the result has exactly the
    declared keys, in either shape. *)
Lemma getConfig_result_keys_plain (idOrName : string) (keyOptions : gmap string ConfigValue)
    (options : option GetConfigOptions.t) (item : Item.t) :
  onePItem_get idOrName = Resolves (Some item) -> truthy (Item.id item) = true ->
  keyOptions !! proto_key = None ->
  exists out, getConfig idOrName keyOptions options = Return out
              /\ result_keys out = dom keyOptions.
Proof.
  intros Hget Hid Hplain.
  destruct (getConfig_result_keys idOrName keyOptions options item Hget Hid)
    as (out & Hout & Hkeys).
  exists out. split; [done|]. rewrite Hkeys.
  apply not_elem_of_dom in Hplain. apply set_eq. intros k.
  rewrite elem_of_difference, elem_of_singleton. split; [by intros [? _]|].
  intros Hk. split; [done|]. intros ->. by apply Hplain.
Qed.

(** C7. A bare-string entry is looked up under its declared key, has no
    default, and carries the string as the description of its entry. *)
Theorem bare_string_resolution (item : Item.t) (configKey text : string) :
  let found := getFieldValue item configKey in
  fieldKey configKey (Described text) = configKey
  /\ defaultValue (Described text) = None
  /\ resolveField item configKey (Described text)
     = ConfigResult.mk found (bool_decide (found <> None)) (Some text)
  /\ (forall idOrName keyOptions options,
        onePItem_get idOrName = Resolves (Some item) -> truthy (Item.id item) = true ->
        detailedResult options = true ->
        keyOptions !! configKey = Some (Described text) -> configKey <> proto_key ->
        detailed_entry (getConfig idOrName keyOptions options) configKey
        = Some (ConfigResult.mk found (bool_decide (found <> None)) (Some text))).
Proof.
  intros found.
  assert (resolveField item configKey (Described text)
          = ConfigResult.mk found (bool_decide (found <> None)) (Some text)) as Hres.
  { unfold resolveField, found. simpl.
    by destruct (getFieldValue item configKey). }
  split_and!; try done.
  intros idOrName keyOptions options Hget Hid Hopt Hk Hne.
  rewrite (getConfig_detailed_entry _ _ _ _ _ _ Hget Hid Hopt Hk Hne).
  by rewrite Hres.
Qed.

(** *** Descriptions *)

Lemma fieldKey_alias (configKey : string) (configValue : ConfigValue) :
  fieldKey configKey configValue = js_or (key_alias configValue) configKey.
Proof. by destruct configValue. Qed.

(** The value and the matched flag of an entry depend on its alias and
    its default only. *)
Lemma resolution_of_resolveField (item : Item.t) (k : string) (v1 v2 : ConfigValue) :
  key_alias v1 = key_alias v2 -> defaultValue v1 = defaultValue v2 ->
  resolution_of (resolveField item k v1) = resolution_of (resolveField item k v2).
Proof.
  intros Halias Hdefault. unfold resolution_of, resolveField. simpl.
  by rewrite !fieldKey_alias, Halias, Hdefault.
Qed.

Lemma detailedResult_tmp_up_to_descriptions (item : Item.t)
    (m1 m2 : gmap string ConfigValue) :
  same_up_to_descriptions m1 m2 ->
  resolution_of <$> detailedResult_tmp item m1 = resolution_of <$> detailedResult_tmp item m2.
Proof.
  intros [Hdom Hsame]. apply map_eq. intros k.
  rewrite !lookup_fmap, !detailedResult_tmp_lookup.
  destruct (decide (k = proto_key)) as [Hk|Hk]; [done|].
  destruct (m1 !! k) as [v1|] eqn:H1, (m2 !! k) as [v2|] eqn:H2; simpl.
  - destruct (Hsame k v1 v2 H1 H2) as [Halias Hdefault].
    f_equal. by apply resolution_of_resolveField.
  - apply not_elem_of_dom in H2. rewrite <- Hdom in H2.
    apply not_elem_of_dom in H2. congruence.
  - apply not_elem_of_dom in H1. rewrite Hdom in H1.
    apply not_elem_of_dom in H1. congruence.
  - done.
Qed.

Lemma project_values_resolution (d : gmap string ConfigResult.t) :
  project_values d = fst <$> (resolution_of <$> d).
Proof. unfold project_values. by rewrite <- map_fmap_compose. Qed.

(** C8. Two configuration maps with the same keys, the same aliases
    and the same defaults give results with the same value and the same
    matched flag under every declared key, in either shape, and fail
    alike: descriptions take no part in resolution. *)
Theorem descriptions_do_not_affect_resolution (idOrName : string)
    (m1 m2 : gmap string ConfigValue) (options : option GetConfigOptions.t) :
  same_up_to_descriptions m1 m2 ->
  without_descriptions (getConfig idOrName m1 options)
  = without_descriptions (getConfig idOrName m2 options).
Proof.
  intros Hsame. unfold getConfig.
  destruct (onePItem_get idOrName) as [e|[item|]]; [done| |done].
  destruct (negb (truthy (Item.id item))); [done|].
  pose proof (detailedResult_tmp_up_to_descriptions item m1 m2 Hsame) as Heq.
  destruct (detailedResult options); simpl.
  - by rewrite Heq.
  - by rewrite !simpleResult_project, !project_values_resolution, Heq.
Qed.

(** *** Items without fields, and failed fetches *)

(** C9. For a fetched item that has no [fields] member the call still
    returns: every lookup finds nothing, and every declared field
    resolves to its default (or to an absent value) with
    [matched = false]. *)
Theorem item_without_fields (idOrName : string) (keyOptions : gmap string ConfigValue)
    (options : option GetConfigOptions.t) (item : Item.t) :
  onePItem_get idOrName = Resolves (Some item) -> truthy (Item.id item) = true ->
  Item.fields item = None ->
  (forall k, getFieldValue item k = None)
  /\ (exists out, getConfig idOrName keyOptions options = Return out)
  /\ (forall configKey configValue, keyOptions !! configKey = Some configValue ->
        resolveField item configKey configValue
        = ConfigResult.mk (defaultValue configValue) false (description configValue))
  /\ (forall configKey configValue, keyOptions !! configKey = Some configValue ->
        configKey <> proto_key ->
        if detailedResult options
        then detailed_entry (getConfig idOrName keyOptions options) configKey
             = Some (ConfigResult.mk (defaultValue configValue) false
                       (description configValue))
        else simple_entry (getConfig idOrName keyOptions options) configKey
             = Some (defaultValue configValue)).
Proof.
  intros Hget Hid Hfields.
  assert (forall k, getFieldValue item k = None) as Hnone.
  { intros k. unfold getFieldValue. by rewrite Hfields. }
  assert (forall configKey configValue,
             resolveField item configKey configValue
             = ConfigResult.mk (defaultValue configValue) false (description configValue))
    as Hres.
  { intros configKey configValue. apply resolveField_unmatched, Hnone. }
  split_and!; [done| |done|].
  - rewrite (getConfig_fetched _ _ _ _ Hget Hid). eauto.
  - intros configKey configValue Hk Hne. destruct (detailedResult options) eqn:Hopt.
    + rewrite (getConfig_detailed_entry _ _ _ _ _ _ Hget Hid Hopt Hk Hne).
      by rewrite Hres.
    + rewrite (getConfig_simple_entry _ _ _ _ _ _ Hget Hid Hopt Hk Hne).
      by rewrite Hres.
Qed.

(** C10. The item-not-found error is thrown whenever the fetched value
    is falsy or is an object that lacks an [id], for every configuration
    map and every option: the outcome is settled before the map is
    looked at. *)
Theorem falsy_or_idless_result_fails (idOrName : string) (fetched : option Item.t)
    (keyOptions : gmap string ConfigValue) (options : option GetConfigOptions.t) :
  onePItem_get idOrName = Resolves fetched ->
  fetched = None \/ (exists item, fetched = Some item /\ Item.id item = None) ->
  getConfig idOrName keyOptions options = Throw (Error (not_found_message idOrName)).
Proof.
  intros Hget [->|(item & -> & Hid)]; unfold getConfig; rewrite Hget; [done|].
  by rewrite Hid.
Qed.

(** ** Further properties of [getConfig] and [getFieldValue] *)

(** *** Outcome of a call *)

Lemma truthy_false (s : option string) :
  truthy s = false <-> s = None \/ s = Some EmptyString.
Proof.
  destruct s as [[|c rest]|]; simpl.
  - split; [by right|done].
  - split; [done|]. intros [Hs|Hs]; discriminate Hs.
  - split; [by left|done].
Qed.

(** X1. A call returns a result exactly when the fetch yields an object
    with a non-empty [id]; an error thrown by the retriever reaches the
    caller unchanged. *)
Theorem getConfig_returns_iff (idOrName : string) (keyOptions : gmap string ConfigValue)
    (options : option GetConfigOptions.t) :
  ((exists out, getConfig idOrName keyOptions options = Return out)
   <-> exists item, onePItem_get idOrName = Resolves (Some item)
                    /\ truthy (Item.id item) = true)
  /\ (forall e, onePItem_get idOrName = Throws e ->
               getConfig idOrName keyOptions options = Throw e).
Proof.
  unfold getConfig. destruct (onePItem_get idOrName) as [e|[item|]].
  - split; [|by intros e' [= ->]]. split; [by intros [out Hout]|].
    by intros (item & Hitem & _).
  - split; [|done]. destruct (truthy (Item.id item)) eqn:Hid; simpl.
    + split; [by exists item|]. intros _. destruct (detailedResult options); eauto.
    + split; [by intros [out Hout]|]. intros (item' & [= <-] & Hid'). congruence.
  - split; [|done]. split; [by intros [out Hout]|]. by intros (item & Hitem & _).
Qed.

(** X2. Once the fetch has completed, the not-found error is thrown exactly
    when the value is falsy, or is an object whose [id] is missing or
    the empty string. *)
Theorem not_found_iff (idOrName : string) (fetched : option Item.t)
    (keyOptions : gmap string ConfigValue) (options : option GetConfigOptions.t) :
  onePItem_get idOrName = Resolves fetched ->
  getConfig idOrName keyOptions options = Throw (Error (not_found_message idOrName))
  <-> fetched = None
      \/ exists item, fetched = Some item
                      /\ (Item.id item = None \/ Item.id item = Some EmptyString).
Proof.
  intros Hget. unfold getConfig. rewrite Hget. destruct fetched as [item|].
  - destruct (truthy (Item.id item)) eqn:Hid; simpl.
    + split.
      * destruct (detailedResult options); discriminate.
      * intros [Hnone|(item' & [= <-] & Hfalsy)]; [discriminate Hnone|].
        apply truthy_false in Hfalsy. congruence.
    + split; [|done]. intros _. right. exists item. split; [done|].
      by apply truthy_false.
  - split; [by left|done].
Qed.

(** X3. The requested shape is detailed exactly when the options carry
    [detailedResult: true]; without options, without the member, or with
    [false], the simple shape is returned. *)
Theorem shape_follows_option (idOrName : string) (keyOptions : gmap string ConfigValue)
    (options : option GetConfigOptions.t) (out : ConfigOutput) :
  getConfig idOrName keyOptions options = Return out ->
  ((exists detailed, out = Detailed detailed)
   <-> exists o, options = Some o /\ GetConfigOptions.detailedResult o = Some true)
  /\ ((exists simple, out = Simple simple)
      <-> options = None
          \/ exists o, options = Some o
                       /\ (GetConfigOptions.detailedResult o = None
                           \/ GetConfigOptions.detailedResult o = Some false)).
Proof.
  unfold getConfig. destruct (onePItem_get idOrName) as [e|[item|]]; [done| |done].
  destruct (negb (truthy (Item.id item))); [done|].
  destruct options as [[[[|]|]]|]; simpl; intros [= <-].
  - split.
    + split; [intros _; eauto|intros _; eauto].
    + split; [by intros [simple Hs]|].
      intros [Hnone|(o & [= <-] & [Ho|Ho])]; discriminate.
  - split.
    + split; [by intros [d Hd]|]. intros (o & [= <-] & Ho). discriminate Ho.
    + split; [|intros _; eauto]. intros _. right. eexists. split; [done|by right].
  - split.
    + split; [by intros [d Hd]|]. intros (o & [= <-] & Ho). discriminate Ho.
    + split; [|intros _; eauto]. intros _. right. eexists. split; [done|by left].
  - split.
    + split; [by intros [d Hd]|]. by intros (o & Ho & _).
    + split; [|intros _; eauto]. intros _. by left.
Qed.

(** *** The result as a whole *)


(** X5. Every entry of a detailed result stems from the declared entry of
    the same name: it carries that entry's description; when [matched]
    is true its value is the defined value the item holds under the
    lookup key, and when [matched] is false its value is the default and
    the lookup found nothing. *)
Theorem detailed_entries_sound (idOrName : string) (keyOptions : gmap string ConfigValue)
    (options : option GetConfigOptions.t) (detailed : gmap string ConfigResult.t)
    (k : string) (r : ConfigResult.t) :
  getConfig idOrName keyOptions options = Return (Detailed detailed) ->
  detailed !! k = Some r ->
  exists item configValue,
    onePItem_get idOrName = Resolves (Some item)
    /\ keyOptions !! k = Some configValue
    /\ ConfigResult.description r = description configValue
    /\ (ConfigResult.matched r = true ->
        exists s, ConfigResult.value r = Some s
                  /\ getFieldValue item (fieldKey k configValue) = Some s)
    /\ (ConfigResult.matched r = false ->
        ConfigResult.value r = defaultValue configValue
        /\ getFieldValue item (fieldKey k configValue) = None).
Proof.
  unfold getConfig. destruct (onePItem_get idOrName) as [e|[item|]]; [done| |done].
  destruct (negb (truthy (Item.id item))); [done|].
  destruct (detailedResult options); intros [= <-].
  intros Hr. rewrite detailedResult_tmp_lookup in Hr.
  destruct (decide (k = proto_key)); [done|].
  destruct (keyOptions !! k) as [configValue|] eqn:Hk; [|done].
  injection Hr as <-. exists item, configValue. split_and!; [done|done|done| |].
  - unfold resolveField. simpl.
    destruct (getFieldValue item (fieldKey k configValue)) as [s|]; [|discriminate].
    intros _. by exists s.
  - unfold resolveField. simpl.
    destruct (getFieldValue item (fieldKey k configValue)) as [s|]; [discriminate|].
    by intros _.
Qed.

(** X6. A defined store value, the empty string included, is returned in
    place of the default and counts as matched. *)
Theorem found_value_beats_default (idOrName : string) (keyOptions : gmap string ConfigValue)
    (options : option GetConfigOptions.t) (item : Item.t) (configKey : string)
    (configValue : ConfigValue) (s : string) :
  onePItem_get idOrName = Resolves (Some item) -> truthy (Item.id item) = true ->
  keyOptions !! configKey = Some configValue -> configKey <> proto_key ->
  getFieldValue item (fieldKey configKey configValue) = Some s ->
  if detailedResult options
  then detailed_entry (getConfig idOrName keyOptions options) configKey
       = Some (ConfigResult.mk (Some s) true (description configValue))
  else simple_entry (getConfig idOrName keyOptions options) configKey = Some (Some s).
Proof.
  intros Hget Hid Hk Hne Hfound. destruct (detailedResult options) eqn:Hopt.
  - rewrite (getConfig_detailed_entry _ _ _ _ _ _ Hget Hid Hopt Hk Hne).
    by rewrite (resolveField_found _ _ _ _ Hfound).
  - rewrite (getConfig_simple_entry _ _ _ _ _ _ Hget Hid Hopt Hk Hne).
    by rewrite (resolveField_found _ _ _ _ Hfound).
Qed.


(** *** Lookup by label *)

Lemma find_ext_in {X : Type} (p q : X -> bool) (l : list X) :
  (forall x, x ∈ l -> p x = q x) -> find p l = find q l.
Proof.
  induction l as [|x l IH]; intros Hpq; simpl; [done|].
  rewrite <- (Hpq x) by apply list_elem_of_here.
  destruct (p x); [done|]. apply IH. intros y Hy. apply Hpq. by apply list_elem_of_further.
Qed.

(** X8. Two lookup keys that agree after lower-casing find the same value,
    as long as neither is the identifier of a field of the item. *)
Theorem label_lookup_ignores_case (item : Item.t) (k1 k2 : string) :
  toLowerCase k1 = toLowerCase k2 ->
  (forall fs f, Item.fields item = Some fs -> f ∈ fs ->
                Field.id f <> k1 /\ Field.id f <> k2) ->
  getFieldValue item k1 = getFieldValue item k2.
Proof.
  intros Hlower Hids. unfold getFieldValue.
  destruct (Item.fields item) as [fs|] eqn:Hfs; [|done].
  rewrite (find_ext_in (field_matches k1) (field_matches k2)); [done|].
  intros f Hf. destruct (Hids fs f eq_refl Hf) as [H1 H2].
  unfold field_matches. apply String.eqb_neq in H1, H2. by rewrite H1, H2, Hlower.
Qed.

(** *** The error message *)

Lemma string_length_app (a b : string) :
  String.length (a ++ b) = String.length a + String.length b.
Proof. induction a as [|c a IH]; simpl; [done|]. by rewrite IH. Qed.

Lemma string_app_inv_tail (a b t : string) : a ++ t = b ++ t -> a = b.
Proof.
  revert b. induction a as [|c a IH]; intros [|d b] Heq.
  - done.
  - apply (f_equal String.length) in Heq.
    rewrite !string_length_app in Heq. simpl in Heq. lia.
  - apply (f_equal String.length) in Heq.
    rewrite !string_length_app in Heq. simpl in Heq. lia.
  - injection Heq as -> Heq. f_equal. by apply IH.
Qed.

(** X9. The message of the not-found error determines the identifier that
    was asked for: two identifiers with the same message are equal. *)
Theorem not_found_message_inj (id1 id2 : string) :
  not_found_message id1 = not_found_message id2 -> id1 = id2.
Proof.
  unfold not_found_message. intros Heq.
  apply (inj (String.app _)) in Heq. apply (inj (String.app _)) in Heq.
  by apply string_app_inv_tail in Heq.
Qed.

(** *** Keys of the result *)

(** X10. For a field map with no own key [__proto__] the result is the
    map that sends every declared key to the resolution of its entry:
    the detailed shape returns that map, the simple shape its values,
    and the keys are the declared keys. *)
Theorem plain_map_result (idOrName : string) (keyOptions : gmap string ConfigValue)
    (options : option GetConfigOptions.t) (item : Item.t) :
  onePItem_get idOrName = Resolves (Some item) -> truthy (Item.id item) = true ->
  keyOptions !! proto_key = None ->
  exists detailed,
    (forall k, detailed !! k = resolveField item k <$> keyOptions !! k)
    /\ dom detailed = dom keyOptions
    /\ getConfig idOrName keyOptions options
       = Return (if detailedResult options then Detailed detailed
                 else Simple (ConfigResult.value <$> detailed)).
Proof.
  intros Hget Hid Hplain. exists (detailedResult_tmp item keyOptions).
  assert (forall k, detailedResult_tmp item keyOptions !! k
                    = resolveField item k <$> keyOptions !! k) as Hlookup.
  { intros k. rewrite detailedResult_tmp_lookup.
    destruct (decide (k = proto_key)) as [->|Hk]; [by rewrite Hplain|done]. }
  split_and!; [done| |by apply getConfig_fetched].
  apply set_eq. intros k. by rewrite !elem_of_dom, Hlookup, fmap_is_Some.
Qed.

(** X11. Whatever a call returns, its keys are declared keys, and they
    are all the declared keys except [__proto__]: no field name of the
    item and no other name ever shows up in a result. *)
Theorem result_keys_within_declared (idOrName : string)
    (keyOptions : gmap string ConfigValue) (options : option GetConfigOptions.t)
    (out : ConfigOutput) :
  getConfig idOrName keyOptions options = Return out ->
  result_keys out = dom keyOptions ∖ {[proto_key]}
  /\ (forall k, k ∈ result_keys out -> k ∈ dom keyOptions).
Proof.
  unfold getConfig. destruct (onePItem_get idOrName) as [e|[item|]]; [done| |done].
  destruct (negb (truthy (Item.id item))); [done|].
  assert (result_keys out = dom keyOptions ∖ {[proto_key]} ->
          result_keys out = dom keyOptions ∖ {[proto_key]}
          /\ (forall k, k ∈ result_keys out -> k ∈ dom keyOptions)) as Hsub.
  { intros Heq. split; [done|]. intros k. rewrite Heq, elem_of_difference. by intros [? _]. }
  destruct (detailedResult options); intros [= <-]; apply Hsub; simpl.
  - apply detailedResult_tmp_dom.
  - rewrite simpleResult_project. unfold project_values.
    rewrite dom_fmap_L. apply detailedResult_tmp_dom.
Qed.

End Program.

(** ** The program on concrete inputs *)

(** The example of the README: a label match, an alias and a default. *)
Example oss_simple :
  getConfig ascii_toLowerCase sample_store "oss" oss_keyOptions None
  = Return (Simple (<["region" := Some "oss-cn-shanghai"]>
                    (<["access_key_id" := Some "AKID123"]>
                    (<["bucket" := Some "dev-bucket"]> ∅)))).
Proof. vm_compute. reflexivity. Qed.

Example oss_detailed_bucket :
  detailed_entry (getConfig ascii_toLowerCase sample_store "oss" oss_keyOptions want_detailed)
    "bucket"
  = Some (ConfigResult.mk (Some "dev-bucket") false None).
Proof. vm_compute. reflexivity. Qed.

Example empty_map_empty_result :
  getConfig ascii_toLowerCase sample_store "oss" ∅ None = Return (Simple ∅)
  /\ getConfig ascii_toLowerCase sample_store "oss" ∅ want_detailed = Return (Detailed ∅).
Proof. split; vm_compute; reflexivity. Qed.

(** Identifiers are compared as they are, labels after lower-casing:
    [TOKEN] skips the field whose identifier is [token] and finds the
    field labelled [Token]. *)
Example identifier_match_is_case_sensitive :
  getFieldValue ascii_toLowerCase shadowed_item "token" = None
  /\ getFieldValue ascii_toLowerCase shadowed_item "TOKEN" = Some "t0k3n".
Proof. split; reflexivity. Qed.

Lemma redescribe_same (text : string) (m : gmap string ConfigValue) :
  same_up_to_descriptions m (redescribe text <$> m).
Proof.
  split; [by rewrite dom_fmap_L|].
  intros k v1 v2 H1 H2. rewrite lookup_fmap, H1 in H2. simpl in H2.
  injection H2 as <-. by destruct v1.
Qed.

Lemma getFieldValue_first_match_witness :
  first_match ascii_toLowerCase "token"
    [Field.mk "token" None None; Field.mk "f2" (Some "Token") (Some "t0k3n")]
    (Field.mk "token" None None)
  /\ spec_matches ascii_toLowerCase "token" (Field.mk "f2" (Some "Token") (Some "t0k3n"))
  /\ ConfigResult.matched
       (resolveField ascii_toLowerCase shadowed_item "token" (Described "API token")) = false.
Proof.
  assert (first_match ascii_toLowerCase "token"
            [Field.mk "token" None None; Field.mk "f2" (Some "Token") (Some "t0k3n")]
            (Field.mk "token" None None)) as Hfirst.
  { exists [], [Field.mk "f2" (Some "Token") (Some "t0k3n")].
    split; [reflexivity|]. split; [|left; reflexivity].
    intros g Hg. exfalso. revert Hg. apply not_elem_of_nil. }
  split; [exact Hfirst|]. split.
  - right. exists "Token". split; reflexivity.
  - apply (proj2 (proj2 (proj2
             (getFieldValue_first_match ascii_toLowerCase shadowed_item "token")))
             "token" (Described "API token") _ _ eq_refl eq_refl Hfirst eq_refl).
Defined.

Lemma unmatched_field_takes_default_witness :
  (exists out,
     getConfig ascii_toLowerCase sample_store "oss" oss_keyOptions want_detailed = Return out)
  /\ ConfigResult.value
       (resolveField ascii_toLowerCase oss_item "bucket"
          (Structured (ConfigFieldSpec.mk None (Some "dev-bucket") None)))
     = Some "dev-bucket"
  /\ ConfigResult.matched
       (resolveField ascii_toLowerCase oss_item "bucket"
          (Structured (ConfigFieldSpec.mk None (Some "dev-bucket") None)))
     = false
  /\ detailed_entry
       (getConfig ascii_toLowerCase sample_store "oss" oss_keyOptions want_detailed) "bucket"
     = Some (ConfigResult.mk (Some "dev-bucket") false None).
Proof.
  assert (oss_keyOptions !! "bucket"
          = Some (Structured (ConfigFieldSpec.mk None (Some "dev-bucket") None))) as Hk.
  { vm_compute. reflexivity. }
  destruct (unmatched_field_takes_default ascii_toLowerCase sample_store "oss" oss_keyOptions
              want_detailed oss_item "bucket"
              (Structured (ConfigFieldSpec.mk None (Some "dev-bucket") None))
              eq_refl eq_refl Hk) as (Hret & _ & Hunmatched).
  destruct Hunmatched as (Hvalue & Hmatched & Hentry).
  - intros fs f Hfs Hin Hm. injection Hfs as <-.
    apply field_matches_spec in Hm.
    apply elem_of_cons in Hin as [->|Hin]; [discriminate Hm|].
    apply elem_of_cons in Hin as [->|Hin]; [discriminate Hm|].
    exfalso. revert Hin. apply not_elem_of_nil.
  - split; [exact Hret|]. split; [exact Hvalue|]. split; [exact Hmatched|].
    apply Hentry. discriminate.
Defined.

(** C3, as stated, fails: an entry whose [key] is present but empty is
    looked up under its declared key, not under [spec.key]. *)
Lemma empty_key_falls_back_to_declared_key :
  ConfigFieldSpec.key empty_key_spec = Some EmptyString
  /\ fieldKey "username" (Structured empty_key_spec) = "username"
  /\ fieldKey "username" (Structured empty_key_spec)
     <> spec_lookupKey "username" empty_key_spec
  /\ resolveField ascii_toLowerCase oss_item "username" (Structured empty_key_spec)
     = ConfigResult.mk (Some "AKID123") true None
  /\ getFieldValue ascii_toLowerCase oss_item (spec_lookupKey "username" empty_key_spec)
     = None
  /\ ~ (forall configKey spec k, ConfigFieldSpec.key spec = Some k ->
          fieldKey configKey (Structured spec) = k).
Proof.
  split_and!; try reflexivity.
  - discriminate.
  - intros Hclaim. specialize (Hclaim "username" empty_key_spec EmptyString eq_refl).
    discriminate Hclaim.
Qed.

Lemma structured_lookup_key_witness :
  fieldKey "access_key_id" (Structured (ConfigFieldSpec.mk (Some "username") None None))
  = "username"
  /\ resolveField ascii_toLowerCase oss_item "access_key_id"
       (Structured (ConfigFieldSpec.mk (Some "username") None None))
     = ConfigResult.mk (Some "AKID123") true None.
Proof.
  pose proof (structured_lookup_key ascii_toLowerCase sample_store oss_item "access_key_id"
                (ConfigFieldSpec.mk (Some "username") None None)) as (Hkey & _ & Hres & _).
  split; [exact Hkey|exact Hres].
Defined.

Lemma simple_is_projection_of_detailed_witness :
  exists detailed,
    detailed = detailedResult_tmp ascii_toLowerCase oss_item oss_keyOptions
    /\ getConfig ascii_toLowerCase sample_store "oss" oss_keyOptions want_detailed
       = Return (Detailed detailed)
    /\ getConfig ascii_toLowerCase sample_store "oss" oss_keyOptions None
       = Return (Simple (project_values detailed))
    /\ simpleResult detailed = project_values detailed.
Proof.
  apply (simple_is_projection_of_detailed ascii_toLowerCase sample_store "oss" oss_keyOptions
           oss_item want_detailed None); reflexivity.
Defined.

Lemma missing_item_fails_witness :
  getConfig ascii_toLowerCase sample_store "prod-db" oss_keyOptions None
  = Throw (Error ("Item with name or UUID " ++ dquote ++ "prod-db" ++ dquote ++ " not found."))
  /\ (forall out,
        getConfig ascii_toLowerCase sample_store "prod-db" oss_keyOptions None <> Return out).
Proof.
  apply (missing_item_fails ascii_toLowerCase sample_store "prod-db" oss_keyOptions None).
  reflexivity.
Defined.

(** C6 at a field map with an own [__proto__] key: the declared key is
    missing from the result in both shapes. *)
Theorem proto_key_is_dropped :
  dom proto_keyOptions = {[ "__proto__" ]}
  /\ getConfig ascii_toLowerCase sample_store "oss" proto_keyOptions want_detailed
     = Return (Detailed ∅)
  /\ getConfig ascii_toLowerCase sample_store "oss" proto_keyOptions None
     = Return (Simple ∅)
  /\ result_keys (Detailed ∅) <> dom proto_keyOptions
  /\ result_keys (Simple ∅) <> dom proto_keyOptions.
Proof.
  assert (dom proto_keyOptions = ({[ "__proto__" ]} : gset string)) as Hdom.
  { unfold proto_keyOptions. apply dom_singleton_L. }
  split_and!; [exact Hdom|vm_compute; reflexivity|vm_compute; reflexivity| |].
  - simpl. rewrite Hdom, dom_empty_L. intros Heq.
    apply (not_elem_of_empty (C := gset string) "__proto__"). rewrite Heq.
    by apply elem_of_singleton.
  - simpl. rewrite Hdom, dom_empty_L. intros Heq.
    apply (not_elem_of_empty (C := gset string) "__proto__"). rewrite Heq.
    by apply elem_of_singleton.
Qed.

Lemma bare_string_resolution_witness :
  fieldKey "region" (Described "OSS region") = "region"
  /\ defaultValue (Described "OSS region") = None
  /\ resolveField ascii_toLowerCase oss_item "region" (Described "OSS region")
     = ConfigResult.mk (Some "oss-cn-shanghai") true (Some "OSS region").
Proof.
  pose proof (bare_string_resolution ascii_toLowerCase sample_store oss_item "region"
                "OSS region") as (Hkey & Hdefault & Hres & _).
  split; [exact Hkey|]. split; [exact Hdefault|exact Hres].
Defined.

Lemma descriptions_do_not_affect_resolution_witness :
  same_up_to_descriptions oss_keyOptions (redescribe "n/a" <$> oss_keyOptions)
  /\ without_descriptions
       (getConfig ascii_toLowerCase sample_store "oss" oss_keyOptions want_detailed)
     = without_descriptions
         (getConfig ascii_toLowerCase sample_store "oss"
            (redescribe "n/a" <$> oss_keyOptions) want_detailed).
Proof.
  split; [apply redescribe_same|].
  apply (descriptions_do_not_affect_resolution ascii_toLowerCase sample_store "oss"
           oss_keyOptions (redescribe "n/a" <$> oss_keyOptions) want_detailed).
  apply redescribe_same.
Defined.

Lemma item_without_fields_witness :
  (forall k, getFieldValue ascii_toLowerCase bare_item k = None)
  /\ (exists out,
        getConfig ascii_toLowerCase sample_store "bare" oss_keyOptions None = Return out)
  /\ simple_entry (getConfig ascii_toLowerCase sample_store "bare" oss_keyOptions None)
       "bucket"
     = Some (Some "dev-bucket").
Proof.
  pose proof (item_without_fields ascii_toLowerCase sample_store "bare" oss_keyOptions None
                bare_item eq_refl eq_refl eq_refl) as (Hnone & Hret & _ & Hentry).
  split; [exact Hnone|]. split; [exact Hret|].
  apply (Hentry "bucket" (Structured (ConfigFieldSpec.mk None (Some "dev-bucket") None))).
  - vm_compute. reflexivity.
  - discriminate.
Defined.

Lemma falsy_or_idless_result_fails_witness :
  Item.id anonymous_item = None
  /\ getConfig ascii_toLowerCase sample_store "anonymous" oss_keyOptions want_detailed
     = Throw (Error (not_found_message "anonymous"))
  /\ getConfig ascii_toLowerCase sample_store "prod-db" oss_keyOptions want_detailed
     = Throw (Error (not_found_message "prod-db")).
Proof.
  split; [reflexivity|]. split.
  - apply (falsy_or_idless_result_fails ascii_toLowerCase sample_store "anonymous"
             (Some anonymous_item) oss_keyOptions want_detailed); [reflexivity|].
    right. exists anonymous_item. split; reflexivity.
  - apply (falsy_or_idless_result_fails ascii_toLowerCase sample_store "prod-db"
             None oss_keyOptions want_detailed); [reflexivity|].
    left. reflexivity.
Defined.

(** ** The further properties on concrete inputs *)

Lemma getConfig_returns_iff_witness :
  (exists out, getConfig ascii_toLowerCase sample_store "oss" oss_keyOptions None = Return out)
  /\ getConfig ascii_toLowerCase (failing_store (Foreign "not signed in")) "oss"
       oss_keyOptions None
     = Throw (Foreign "not signed in").
Proof.
  split.
  - apply (proj1 (getConfig_returns_iff ascii_toLowerCase sample_store "oss"
                    oss_keyOptions None)).
    exists oss_item. split; reflexivity.
  - apply (proj2 (getConfig_returns_iff ascii_toLowerCase
                    (failing_store (Foreign "not signed in")) "oss" oss_keyOptions None)).
    reflexivity.
Defined.

Lemma not_found_iff_witness :
  Item.id blank_id_item = Some EmptyString
  /\ getConfig ascii_toLowerCase (constant_store blank_id_item) "vault" oss_keyOptions None
     = Throw (Error (not_found_message "vault")).
Proof.
  split; [reflexivity|].
  apply (not_found_iff ascii_toLowerCase (constant_store blank_id_item) "vault"
           (Some blank_id_item) oss_keyOptions None eq_refl).
  right. exists blank_id_item. split; [reflexivity|]. right. reflexivity.
Defined.

Lemma shape_follows_option_witness :
  (exists simple,
     Simple (project_values (detailedResult_tmp ascii_toLowerCase oss_item oss_keyOptions))
     = Simple simple)
  <-> (None : option GetConfigOptions.t) = None
      \/ exists o, (None : option GetConfigOptions.t) = Some o
                   /\ (GetConfigOptions.detailedResult o = None
                       \/ GetConfigOptions.detailedResult o = Some false).
Proof.
  apply (shape_follows_option ascii_toLowerCase sample_store "oss" oss_keyOptions None
           (Simple (project_values
                      (detailedResult_tmp ascii_toLowerCase oss_item oss_keyOptions)))).
  vm_compute. reflexivity.
Defined.


Lemma detailed_entries_sound_witness :
  exists item configValue,
    sample_store "oss" = Resolves (Some item)
    /\ oss_keyOptions !! "bucket" = Some configValue
    /\ ConfigResult.description (ConfigResult.mk (Some "dev-bucket") false None)
       = description configValue
    /\ (ConfigResult.matched (ConfigResult.mk (Some "dev-bucket") false None) = true ->
        exists s, ConfigResult.value (ConfigResult.mk (Some "dev-bucket") false None) = Some s
                  /\ getFieldValue ascii_toLowerCase item (fieldKey "bucket" configValue)
                     = Some s)
    /\ (ConfigResult.matched (ConfigResult.mk (Some "dev-bucket") false None) = false ->
        ConfigResult.value (ConfigResult.mk (Some "dev-bucket") false None)
        = defaultValue configValue
        /\ getFieldValue ascii_toLowerCase item (fieldKey "bucket" configValue) = None).
Proof.
  apply (detailed_entries_sound ascii_toLowerCase sample_store "oss" oss_keyOptions
           want_detailed (detailedResult_tmp ascii_toLowerCase oss_item oss_keyOptions)
           "bucket" (ConfigResult.mk (Some "dev-bucket") false None)).
  - reflexivity.
  - vm_compute. reflexivity.
Defined.

Lemma found_value_beats_default_witness :
  defaultValue (Structured (ConfigFieldSpec.mk None (Some "dev-bucket") None))
  = Some "dev-bucket"
  /\ simple_entry
       (getConfig ascii_toLowerCase (constant_store blank_value_item) "vault"
          oss_keyOptions None) "bucket"
     = Some (Some EmptyString).
Proof.
  split; [reflexivity|].
  apply (found_value_beats_default ascii_toLowerCase (constant_store blank_value_item)
           "vault" oss_keyOptions None blank_value_item "bucket"
           (Structured (ConfigFieldSpec.mk None (Some "dev-bucket") None)) EmptyString).
  - reflexivity.
  - reflexivity.
  - vm_compute. reflexivity.
  - discriminate.
  - reflexivity.
Defined.


Lemma label_lookup_ignores_case_witness :
  getFieldValue ascii_toLowerCase oss_item "REGION"
  = getFieldValue ascii_toLowerCase oss_item "region"
  /\ getFieldValue ascii_toLowerCase oss_item "region" = Some "oss-cn-shanghai".
Proof.
  split; [|reflexivity].
  apply (label_lookup_ignores_case ascii_toLowerCase oss_item "REGION" "region").
  - reflexivity.
  - intros fs f Hfs Hin. injection Hfs as <-.
    apply elem_of_cons in Hin as [->|Hin]; [split; discriminate|].
    apply elem_of_cons in Hin as [->|Hin]; [split; discriminate|].
    exfalso. revert Hin. apply not_elem_of_nil.
Defined.

Lemma not_found_message_inj_witness :
  not_found_message "oss" = not_found_message "oss" /\ "oss" = "oss".
Proof.
  split; [reflexivity|].
  apply (not_found_message_inj "oss" "oss"). reflexivity.
Defined.

Lemma plain_map_result_witness :
  exists detailed,
    (forall k, detailed !! k
               = resolveField ascii_toLowerCase oss_item k <$> oss_keyOptions !! k)
    /\ dom detailed = dom oss_keyOptions
    /\ getConfig ascii_toLowerCase sample_store "oss" oss_keyOptions want_detailed
       = Return (Detailed detailed).
Proof.
  apply (plain_map_result ascii_toLowerCase sample_store "oss" oss_keyOptions want_detailed
           oss_item).
  - reflexivity.
  - reflexivity.
  - vm_compute. reflexivity.
Defined.

Lemma result_keys_within_declared_witness :
  result_keys (Detailed (detailedResult_tmp ascii_toLowerCase oss_item proto_keyOptions))
  = dom proto_keyOptions ∖ {[proto_key]}
  /\ (forall k,
        k ∈ result_keys
              (Detailed (detailedResult_tmp ascii_toLowerCase oss_item proto_keyOptions)) ->
        k ∈ dom proto_keyOptions).
Proof.
  apply (result_keys_within_declared ascii_toLowerCase sample_store "oss" proto_keyOptions
           want_detailed).
  reflexivity.
Defined.
